(** * osmMuniSvg: the geometric pipeline of [main.py], embedded in Rocq

    The development follows [generate_svg] of [main.py]: the spatial filter,
    the land-mask stage, the coordinate normalizer, the path serializer, the
    identifier sanitizer and the assembly of the SVG document.

    Conventions of the embedding.
    - A Python [str] is a list of Unicode code points ([pystr]).
    - A float is an exact rational or one of the IEEE special values
      ([fnum]): the arithmetic of finite values is exact, division by zero
      follows the numpy scalars that [total_bounds] hands to the program
      (no exception: [inf] or [nan]).  Rounding happens where the program
      asks for it, in the [:.2f] format.
    - What the program calls in shapely, geopandas, pyproj, unidecode and
      osmnx is taken as an interface ([GeometryOps], [TextOps],
      [Acquisition]); a call that may raise returns an [option]. *)

From Stdlib Require Import Ascii String Decimal DecimalN.
From Stdlib Require Import List ZArith NArith QArith Qabs Qround Lia Lqa Bool.
Import ListNotations.

Set Implicit Arguments.

(** ** Python strings *)

Module PyStr.

Definition codepoint := N.
Definition pystr := list codepoint.

(** An ASCII literal of the source as a [pystr]. *)
Definition lit (s : string) : pystr :=
  map N_of_ascii (list_ascii_of_string s).
Arguments lit s%_string.

Definition eqb (a b : pystr) : bool :=
  (length a =? length b)%nat && forallb (fun p => N.eqb (fst p) (snd p)) (combine a b).

(** [sep.join(parts)] *)
Fixpoint join (sep : pystr) (parts : list pystr) : pystr :=
  match parts with
  | [] => []
  | [p] => p
  | p :: rest => p ++ sep ++ join sep rest
  end.

(** [bool(s)] for a string: non-empty. *)
Definition truthy (s : pystr) : bool :=
  match s with [] => false | _ => true end.

Definition count (c : codepoint) (s : pystr) : nat :=
  length (filter (N.eqb c) s).

Definition digit_char (d : N) : codepoint := (48 + d)%N.

Fixpoint uint_chars (u : Decimal.uint) : pystr :=
  match u with
  | Nil => []
  | D0 r => digit_char 0 :: uint_chars r
  | D1 r => digit_char 1 :: uint_chars r
  | D2 r => digit_char 2 :: uint_chars r
  | D3 r => digit_char 3 :: uint_chars r
  | D4 r => digit_char 4 :: uint_chars r
  | D5 r => digit_char 5 :: uint_chars r
  | D6 r => digit_char 6 :: uint_chars r
  | D7 r => digit_char 7 :: uint_chars r
  | D8 r => digit_char 8 :: uint_chars r
  | D9 r => digit_char 9 :: uint_chars r
  end.

(** [str(n)] for a natural number. *)
Definition of_N (n : N) : pystr := uint_chars (N.to_uint n).

(** [str(z)] for an integer. *)
Definition of_Z (z : Z) : pystr :=
  match z with
  | Zneg p => lit "-" ++ of_N (Npos p)
  | _ => of_N (Z.to_N z)
  end.

Definition is_digit (c : codepoint) : bool := (48 <=? c)%N && (c <=? 57)%N.
Definition is_upper (c : codepoint) : bool := (65 <=? c)%N && (c <=? 90)%N.
Definition is_lower (c : codepoint) : bool := (97 <=? c)%N && (c <=? 122)%N.

(** The class [[a-zA-Z0-9]]. *)
Definition is_ascii_alnum (c : codepoint) : bool :=
  is_lower c || is_upper c || is_digit c.

End PyStr.

Import PyStr.

(** ** Floats *)

Inductive fnum : Type :=
| Fin (q : Q)
| PInf
| NInf
| NaN.

Definition fneg (a : fnum) : fnum :=
  match a with
  | Fin q => Fin (- q)
  | PInf => NInf
  | NInf => PInf
  | NaN => NaN
  end.

(** The sign of a non-NaN value: [Lt] negative, [Eq] zero, [Gt] positive. *)
Definition fsign (a : fnum) : comparison :=
  match a with
  | Fin q => (q ?= 0)%Q
  | PInf => Gt
  | NInf => Lt
  | NaN => Eq
  end.

Definition fadd (a b : fnum) : fnum :=
  match a, b with
  | NaN, _ | _, NaN => NaN
  | Fin x, Fin y => Fin (x + y)
  | PInf, NInf | NInf, PInf => NaN
  | PInf, _ | _, PInf => PInf
  | NInf, _ | _, NInf => NInf
  end.

Definition fsub (a b : fnum) : fnum := fadd a (fneg b).

Definition signed_inf (s : comparison) : fnum :=
  match s with
  | Gt => PInf
  | Lt => NInf
  | Eq => NaN
  end.

Definition sign_mul (s t : comparison) : comparison :=
  match s, t with
  | Eq, _ | _, Eq => Eq
  | Gt, u => u
  | Lt, u => CompOpp u
  end.

Definition fmul (a b : fnum) : fnum :=
  match a, b with
  | NaN, _ | _, NaN => NaN
  | Fin x, Fin y => Fin (x * y)
  | _, _ => signed_inf (sign_mul (fsign a) (fsign b))
  end.

(** Division of numpy scalars: a zero divisor gives [inf] or [nan], never an
    exception.  The divisors of the program are differences [max - min] of a
    bounding box, so a zero divisor is the positive zero. *)
Definition fdiv (a b : fnum) : fnum :=
  match a, b with
  | NaN, _ | _, NaN => NaN
  | Fin x, Fin y =>
      if Qeq_bool y 0 then signed_inf (x ?= 0)%Q else Fin (x / y)
  | Fin _, _ => Fin 0
  | _, Fin y =>
      if Qeq_bool y 0 then a else signed_inf (sign_mul (fsign a) (y ?= 0)%Q)
  | _, _ => NaN
  end.

(** Equality of floats as numbers. *)
Definition feq (a b : fnum) : Prop :=
  match a, b with
  | Fin x, Fin y => x == y
  | PInf, PInf | NInf, NInf => True
  | _, _ => False
  end.


(** Round to the nearest integer, ties to even. *)
Definition round_half_even (q : Q) : Z :=
  let n := Qnum q in
  let d := Zpos (Qden q) in
  let fl := (n / d)%Z in
  match (2 * (n mod d) ?= d)%Z with
  | Lt => fl
  | Gt => (fl + 1)%Z
  | Eq => if Z.even fl then fl else (fl + 1)%Z
  end.

(** The number of hundredths printed by [:.2f] for the magnitude of [q]. *)
Definition hundredths (q : Q) : Z := round_half_even (Qabs q * 100).

Definition two_digits (n : Z) : pystr :=
  [digit_char (Z.to_N (n / 10)); digit_char (Z.to_N (n mod 10))].

(** [f"{x:.2f}"] *)
Definition format_2f (x : fnum) : pystr :=
  match x with
  | Fin q =>
      let c := hundredths q in
      (if Qlt_le_dec q 0 then lit "-" else []) ++
      of_N (Z.to_N (c / 100)) ++ lit "." ++ two_digits (c mod 100)
  | PInf => lit "inf"
  | NInf => lit "-inf"
  | NaN => lit "nan"
  end.

(** ** Geometries *)

Definition point : Type := Q * Q.

(** The coordinate sequence of a ring or of a line. *)
Definition coords : Type := list point.

Record polygon : Type := mkPolygon {
  exterior : coords;
  interiors : list coords
}.

#[warnings="-register-all"]
Inductive geom : Type :=
| Point (c : option point)
| LineString (cs : coords)
| Polygon (p : polygon)
| MultiPoint (ps : list point)
| MultiLineString (ls : list coords)
| MultiPolygon (geoms : list polygon)
| GeometryCollection (gs : list geom).

Definition geom_type (g : geom) : pystr :=
  match g with
  | Point _ => lit "Point"
  | LineString _ => lit "LineString"
  | Polygon _ => lit "Polygon"
  | MultiPoint _ => lit "MultiPoint"
  | MultiLineString _ => lit "MultiLineString"
  | MultiPolygon _ => lit "MultiPolygon"
  | GeometryCollection _ => lit "GeometryCollection"
  end.

Definition polygon_is_empty (p : polygon) : bool :=
  match exterior p with [] => true | _ => false end.

Definition coords_is_empty (cs : coords) : bool :=
  match cs with [] => true | _ => false end.

Fixpoint is_empty (g : geom) : bool :=
  match g with
  | Point None => true
  | Point (Some _) => false
  | LineString cs => coords_is_empty cs
  | Polygon p => polygon_is_empty p
  | MultiPoint ps => coords_is_empty ps
  | MultiLineString ls => forallb coords_is_empty ls
  | MultiPolygon ps => forallb polygon_is_empty ps
  | GeometryCollection gs => forallb is_empty gs
  end.

Definition polygon_coords (p : polygon) : coords :=
  exterior p ++ concat (interiors p).

(** Every vertex of a geometry. *)
Fixpoint all_coords (g : geom) : coords :=
  match g with
  | Point None => []
  | Point (Some c) => [c]
  | LineString cs => cs
  | Polygon p => polygon_coords p
  | MultiPoint ps => ps
  | MultiLineString ls => concat ls
  | MultiPolygon ps => flat_map polygon_coords ps
  | GeometryCollection gs => flat_map all_coords gs
  end.

Definition map_polygon (f : point -> point) (p : polygon) : polygon :=
  mkPolygon (map f (exterior p)) (map (map f) (interiors p)).

(** A transformation of the vertices, the structure kept. *)
Fixpoint map_coords (f : point -> point) (g : geom) : geom :=
  match g with
  | Point c => Point (option_map f c)
  | LineString cs => LineString (map f cs)
  | Polygon p => Polygon (map_polygon f p)
  | MultiPoint ps => MultiPoint (map f ps)
  | MultiLineString ls => MultiLineString (map (map f) ls)
  | MultiPolygon ps => MultiPolygon (map (map_polygon f) ps)
  | GeometryCollection gs => GeometryCollection (map (map_coords f) gs)
  end.

(** ** Bounding box and canvas *)

Definition qmin (a b : Q) : Q := if Qle_bool a b then a else b.
Definition qmax (a b : Q) : Q := if Qle_bool a b then b else a.

(** [total_bounds]: the extent of all vertices, four [nan] when there is
    none (no row, or only empty geometries). *)
Definition bounds_of (cs : coords) : fnum * fnum * fnum * fnum :=
  match cs with
  | [] => (NaN, NaN, NaN, NaN)
  | (x, y) :: rest =>
      (Fin (fold_left qmin (map fst rest) x),
       Fin (fold_left qmin (map snd rest) y),
       Fin (fold_left qmax (map fst rest) x),
       Fin (fold_left qmax (map snd rest) y))
  end.

Definition total_bounds (gs : list geom) : fnum * fnum * fnum * fnum :=
  bounds_of (flat_map all_coords gs).

Record canvas : Type := mkCanvas {
  minx : fnum;
  miny : fnum;
  maxx : fnum;
  maxy : fnum;
  svg_width : fnum;
  svg_height : fnum
}.

(** Lines 70 to 74 of [generate_svg]. *)
Definition canvas_of (b : fnum * fnum * fnum * fnum) : canvas :=
  let '(x0, y0, x1, y1) := b in
  let w := Fin 1000 in
  mkCanvas x0 y0 x1 y1 w (fmul w (fdiv (fsub y1 y0) (fsub x1 x0))).

(** ** Coordinate normalizer (lines 82, 83 and 133, 134) *)

Definition project_x (cv : canvas) (x : Q) : fnum :=
  fmul (fdiv (fsub (Fin x) (minx cv)) (fsub (maxx cv) (minx cv))) (svg_width cv).

Definition project_y (cv : canvas) (y : Q) : fnum :=
  fsub (svg_height cv)
       (fmul (fdiv (fsub (Fin y) (miny cv)) (fsub (maxy cv) (miny cv)))
             (svg_height cv)).

Definition project (cv : canvas) (p : point) : fnum * fnum :=
  (project_x cv (fst p), project_y cv (snd p)).

(** ** Path serializer (lines 76 to 98) *)

(** [enumerate(l)] *)
Definition enumerate {A : Type} (l : list A) : list (nat * A) :=
  combine (seq 0 (length l)) l.

(** One iteration of the loop of [coords_to_path]: the element appended to
    [path]. *)
Definition path_command (cv : canvas) (ip : nat * point) : pystr :=
  let '(i, (x, y)) := ip in
  let px := project_x cv x in
  let py := project_y cv y in
  let prefix := if (i =? 0)%nat then lit "M" else lit "L" in
  prefix ++ lit " " ++ format_2f px ++ lit " " ++ format_2f py.

Definition coords_to_path (cv : canvas) (cs : coords) : pystr :=
  let path :=
    fold_left (fun path ip => path ++ [path_command cv ip]) (enumerate cs) [] in
  let path := path ++ [lit "Z"] in
  join (lit " ") path.

(** The [Polygon] branch: the exterior ring, then [d += " " + ...] for each
    interior ring. *)
Definition polygon_path (cv : canvas) (p : polygon) : pystr :=
  fold_left (fun d interior => d ++ lit " " ++ coords_to_path cv interior)
            (interiors p) (coords_to_path cv (exterior p)).

(** The function on a part of a multi-polygon, which is a [Polygon]. *)
Definition polygon_to_svg_path_part (cv : canvas) (p : polygon) : pystr :=
  if polygon_is_empty p then [] else polygon_path cv p.

Definition polygon_to_svg_path (cv : canvas) (poly : geom) : pystr :=
  if is_empty poly then []
  else match poly with
       | Polygon p => polygon_path cv p
       | MultiPolygon ps =>
           join (lit " ") (map (polygon_to_svg_path_part cv) ps)
       | _ => []
       end.

Definition unit_square : coords :=
  [(0, 0); (10, 0); (10, 10); (0, 10); (0, 0)].

Definition small_hole : coords :=
  [(2, 2); (2, 4); (4, 4); (4, 2); (2, 2)].

Definition square_canvas : canvas :=
  canvas_of (total_bounds [Polygon (mkPolygon unit_square [])]).

(** ** What the program calls in its libraries *)

(** shapely and pyproj.  [intersection] and [union_all] are called inside the
    [try] of the land-mask stage: [None] stands for a raised exception. *)
Class GeometryOps : Type := {
  representative_point : geom -> geom;
  within : geom -> geom -> bool;
  intersection : geom -> geom -> option geom;
  union_all : list geom -> option geom;
  centroid : geom -> point;
  to_epsg3857 : point -> point
}.

(** unidecode, and [str.isalnum] beyond ASCII (it decides [\b] of [re]). *)
Class TextOps : Type := {
  unidecode : pystr -> pystr;
  isalnum_wide : codepoint -> bool
}.

(** A cell of the data frame: a string, or the missing value (a float nan). *)
Inductive pyval : Type :=
| VStr (s : pystr)
| VNaN.

(** [str(v)] *)
Definition py_str (v : pyval) : pystr :=
  match v with
  | VStr s => s
  | VNaN => lit "nan"
  end.

(** The label of a row: a position, or the pair (element type, id) of the
    index that osmnx builds. *)
Inductive index_label : Type :=
| LInt (n : Z)
| LTuple (element : pystr) (osmid : Z).

(** [str(idx)]; the element type holds no quote or backslash. *)
Definition str_index (i : index_label) : pystr :=
  match i with
  | LInt n => of_Z n
  | LTuple e n => lit "('" ++ e ++ lit "', " ++ of_Z n ++ lit ")"
  end.

(** A row of the frame.  A column that the frame lacks is [None]. *)
Record row : Type := mkRow {
  idx : index_label;
  geometry : geom;
  name : option pyval;
  name_en : option pyval
}.

Definition set_geometry (r : row) (g : geom) : row :=
  mkRow (idx r) g (name r) (name_en r).

Inductive tags : Type :=
| admin_level_8
| land_tags.

(** osmnx.  [None] stands for a raised exception. *)
Record Acquisition : Type := {
  geocode_to_gdf : pystr -> option geom;
  features_from_polygon : geom -> tags -> option (list row)
}.

Inductive outcome : Type :=
| Exit (code : Z)
| Written (filename : pystr) (content : pystr).

(** ** Identifier sanitizer (lines 118 to 127) *)

Section Sanitizer.
Context {text : TextOps}.

(** [\w] of a [str] pattern. *)
Definition is_word (c : codepoint) : bool :=
  if (c <? 128)%N then is_ascii_alnum c || (c =? 95)%N else isalnum_wide c.

Definition lower_ascii (c : codepoint) : codepoint :=
  if is_upper c then (c + 32)%N else c.

(** The literal [pat], in lower case, matches at the head of [s] under
    [(?i)]. *)
Fixpoint prefix_ci (pat s : pystr) : bool :=
  match pat, s with
  | [], _ => true
  | _ :: _, [] => false
  | p :: pat', c :: s' => (lower_ascii c =? p)%N && prefix_ci pat' s'
  end.

(** [ward\b] matches at the head of [s]. *)
Definition ward_here (s : pystr) : bool :=
  prefix_ci (lit "ward") s &&
  match skipn 4 s with
  | [] => true
  | c :: _ => negb (is_word c)
  end.

(** [re.sub(r'(?i)\bward\b', '', s)], scanning from the left.
    [prev_word]: the character before the head is a word character;
    [drop]: characters of the current match still to remove. *)
Fixpoint sub_ward_from (prev_word : bool) (drop : nat) (s : pystr) : pystr :=
  match s with
  | [] => []
  | c :: rest =>
      match drop with
      | S d => sub_ward_from true d rest
      | O =>
          if negb prev_word && ward_here s
          then sub_ward_from true 3 rest
          else c :: sub_ward_from (is_word c) 0 rest
      end
  end.

Definition sub_ward (s : pystr) : pystr := sub_ward_from false 0 s.

(** [re.sub(r'[^a-zA-Z0-9]', '', s)] *)
Definition sub_non_alnum (s : pystr) : pystr := filter is_ascii_alnum s.

Definition sanitize (s : pystr) : pystr :=
  sub_non_alnum (sub_ward (unidecode s)).

Definition row_name_jp (r : row) : pyval :=
  match name r with
  | Some v => v
  | None => VStr (lit "Unknown")
  end.

Definition row_name_en (r : row) : pyval :=
  let name_jp := row_name_jp r in
  let name_en :=
    match name_en r with
    | Some v => v
    | None => VStr (py_str name_jp)
    end in
  match name_en with
  | VStr s => if truthy s then name_en else name_jp
  | VNaN => name_jp
  end.

Definition clean_id_of (i : index_label) (display : pystr) : pystr :=
  let clean_id := sanitize display in
  if truthy clean_id then clean_id else lit "ward_" ++ str_index i.

Definition row_clean_id (r : row) : pystr :=
  clean_id_of (idx r) (py_str (row_name_en r)).

End Sanitizer.

(** ** The pipeline (lines 13 to 147) *)

Section Pipeline.
Context {geo : GeometryOps} {text : TextOps}.

(** [series.isin(values)] on one cell. *)
Definition isin (s : pystr) (values : list pystr) : bool :=
  existsb (PyStr.eqb s) values.

(** Line 32. *)
Definition type_filter (wards_gdf : list row) : list row :=
  filter (fun r => isin (geom_type (geometry r))
                        [lit "Polygon"; lit "MultiPolygon"]) wards_gdf.

(** Line 35, and again line 40. *)
Definition point_filter (city_geom : geom) (wards_gdf : list row) : list row :=
  filter (fun r => within (representative_point (geometry r)) city_geom)
         wards_gdf.

(** Lines 31 to 40. *)
Definition spatial_filter (city_geom : geom) (wards_gdf : list row) : list row :=
  let wards_gdf := type_filter wards_gdf in
  let wards_gdf := point_filter city_geom wards_gdf in
  let wards_gdf := point_filter city_geom wards_gdf in
  wards_gdf.

(** [series.intersection(land_geom)]: one exception fails the whole call. *)
Fixpoint intersection_all (gs : list geom) (land_geom : geom) : option (list geom) :=
  match gs with
  | [] => Some []
  | g :: rest =>
      match intersection g land_geom with
      | None => None
      | Some g' =>
          match intersection_all rest land_geom with
          | None => None
          | Some rest' => Some (g' :: rest')
          end
      end
  end.

(** [wards_gdf.geometry = series] *)
Definition assign_geometry (wards_gdf : list row) (gs : list geom) : list row :=
  map (fun rg => set_geometry (fst rg) (snd rg)) (combine wards_gdf gs).

(** Lines 58 and 61: the land mask, or the exception. *)
Definition land_mask (svc : Acquisition) (city_geom : geom) : option geom :=
  match features_from_polygon svc city_geom land_tags with
  | None => None
  | Some land_features => union_all (map geometry land_features)
  end.

(** The body of the [try] of lines 57 to 64: the clipped frame, or the
    exception. *)
Definition try_clip (svc : Acquisition) (city_geom : geom)
    (wards_gdf : list row) : option (list row) :=
  match land_mask svc city_geom with
  | None => None
  | Some land_geom =>
      match intersection_all (map geometry wards_gdf) land_geom with
      | None => None
      | Some gs => Some (assign_geometry wards_gdf gs)
      end
  end.

(** Lines 56 to 66: the [except] branch prints and leaves the frame as it
    was. *)
Definition clip_to_land (svc : Acquisition) (city_geom : geom)
    (wards_gdf : list row) : list row :=
  match try_clip svc city_geom wards_gdf with
  | Some clipped => clipped
  | None => wards_gdf
  end.

(** Line 69. *)
Definition to_crs (wards_gdf : list row) : list row :=
  map (fun r => set_geometry r (map_coords to_epsg3857 (geometry r))) wards_gdf.

Definition dq : pystr := [34%N].
Definition nl : pystr := [10%N].

(** Line 102. *)
Definition svg_open (cv : canvas) : pystr :=
  lit "<svg xmlns=" ++ dq ++ lit "http://www.w3.org/2000/svg" ++ dq ++
  lit " viewBox=" ++ dq ++ lit "0 0 " ++ format_2f (svg_width cv) ++ lit " " ++
  format_2f (svg_height cv) ++ dq ++ lit ">".

(** Lines 103 to 106. *)
Definition style_block : pystr :=
  lit "<style>" ++ nl ++
  lit "            .ward { fill: #ffffff; stroke: #000000; stroke-width: 2px; }" ++ nl ++
  lit "            .label { font-family: sans-serif; font-size: 14px; text-anchor: middle; fill: #000000; pointer-events: none; }" ++ nl ++
  lit "        </style>".

Definition wards_open : pystr := lit "<g id=" ++ dq ++ lit "wards" ++ dq ++ lit ">".
Definition labels_open : pystr := lit "<g id=" ++ dq ++ lit "labels" ++ dq ++ lit ">".
Definition group_close : pystr := lit "</g>".
Definition svg_close : pystr := lit "</svg>".

(** Line 129. *)
Definition shape_element (cv : canvas) (r : row) : pystr :=
  let clean_id := row_clean_id r in
  let path_d := polygon_to_svg_path cv (geometry r) in
  lit "    <path id=" ++ dq ++ clean_id ++ dq ++ lit " class=" ++ dq ++
  lit "ward" ++ dq ++ lit " d=" ++ dq ++ path_d ++ dq ++ lit " />".

(** Lines 132 to 134: the label position. *)
Definition label_position (cv : canvas) (r : row) : fnum * fnum :=
  project cv (centroid (geometry r)).

(** Line 135. *)
Definition label_element (cv : canvas) (r : row) : pystr :=
  let '(cx, cy) := label_position cv r in
  lit "    <text x=" ++ dq ++ format_2f cx ++ dq ++ lit " y=" ++ dq ++
  format_2f cy ++ dq ++ lit " class=" ++ dq ++ lit "label" ++ dq ++ lit ">" ++
  py_str (row_name_jp r) ++ lit "</text>".

(** One iteration of the loop of lines 112 to 135 on the two lists. *)
Definition loop_step (cv : canvas) (st : list pystr * list pystr) (r : row)
    : list pystr * list pystr :=
  let '(svg_elements, labels_elements) := st in
  if is_empty (geometry r) then st
  else (svg_elements ++ [shape_element cv r],
        labels_elements ++ [label_element cv r]).

(** The canvas of lines 69 to 74, from the clipped frame. *)
Definition canvas_of_frame (clipped : list row) : canvas :=
  canvas_of (total_bounds (map geometry (to_crs clipped))).

(** Lines 69 to 141: the lines of the document, from the clipped frame. *)
Definition svg_document (clipped : list row) : list pystr :=
  let wards_gdf := to_crs clipped in
  let cv := canvas_of (total_bounds (map geometry wards_gdf)) in
  let svg_elements := [svg_open cv; style_block; wards_open] in
  let labels_elements := [labels_open] in
  let '(svg_elements, labels_elements) :=
    fold_left (loop_step cv) wards_gdf (svg_elements, labels_elements) in
  let svg_elements := svg_elements ++ [group_close] in
  let labels_elements := labels_elements ++ [group_close] in
  let svg_elements := svg_elements ++ labels_elements in
  svg_elements ++ [svg_close].

(** The frame that reaches line 69. *)
Definition final_features (svc : Acquisition) (city_geom : geom)
    (wards_gdf : list row) : list row :=
  clip_to_land svc city_geom (spatial_filter city_geom wards_gdf).

Definition generate_svg (svc : Acquisition) (osm_id : pystr) : outcome :=
  match geocode_to_gdf svc osm_id with
  | None => Exit 1
  | Some city_geom =>
      match features_from_polygon svc city_geom admin_level_8 with
      | None => Exit 1
      | Some wards_gdf =>
          let wards_gdf := final_features svc city_geom wards_gdf in
          Written (osm_id ++ lit ".svg") (join nl (svg_document wards_gdf))
      end
  end.

End Pipeline.

(** ** Stand-ins for the libraries, for examples *)

Module Demo.

Definition center (cs : coords) : option point :=
  match cs with
  | [] => None
  | (x, y) :: rest =>
      Some ((fold_left qmin (map fst rest) x + fold_left qmax (map fst rest) x) / 2,
            (fold_left qmin (map snd rest) y + fold_left qmax (map snd rest) y) / 2)
  end.

(** Strictly inside the extent of [cs]. *)
Definition inside (p : point) (cs : coords) : bool :=
  match cs with
  | [] => false
  | (x, y) :: rest =>
      negb (Qle_bool (fst p) (fold_left qmin (map fst rest) x)) &&
      negb (Qle_bool (fold_left qmax (map fst rest) x) (fst p)) &&
      negb (Qle_bool (snd p) (fold_left qmin (map snd rest) y)) &&
      negb (Qle_bool (fold_left qmax (map snd rest) y) (snd p))
  end.

Definition demo_within (a b : geom) : bool :=
  match a with
  | Point (Some p) => inside p (all_coords b)
  | _ => false
  end.

Definition demo_representative_point (g : geom) : geom :=
  Point (center (all_coords g)).

Definition empty_polygon : geom := Polygon (mkPolygon [] []).

(** A feature is kept whole when its centre is on the land, and lost
    otherwise. *)
Definition demo_intersection (g land : geom) : option geom :=
  if demo_within (demo_representative_point g) land then Some g
  else Some empty_polygon.

Definition demo_union_all (gs : list geom) : option geom :=
  match gs with
  | [] => None
  | g :: _ => Some g
  end.

Definition demo_centroid (g : geom) : point :=
  match center (all_coords g) with
  | Some p => p
  | None => (0, 0)
  end.

#[export] Instance demo_geo : GeometryOps := {
  representative_point := demo_representative_point;
  within := demo_within;
  intersection := demo_intersection;
  union_all := demo_union_all;
  centroid := demo_centroid;
  to_epsg3857 := fun p => (fst p * 100, snd p * 100)
}.

(** A fragment of the table of unidecode: the macron vowels. *)
Definition demo_unidecode_char (c : codepoint) : pystr :=
  if (c <? 128)%N then [c]
  else if (c =? 332)%N then lit "O"
  else if (c =? 333)%N then lit "o"
  else if (c =? 362)%N then lit "U"
  else if (c =? 363)%N then lit "u"
  else [].

#[export] Instance demo_text : TextOps := {
  unidecode := flat_map demo_unidecode_char;
  isalnum_wide := fun _ => false
}.

Definition square (x0 y0 side : Q) : coords :=
  [(x0, y0); (x0 + side, y0); (x0 + side, y0 + side); (x0, y0 + side); (x0, y0)].

Definition city : geom := Polygon (mkPolygon (square 0 0 10) []).

(** "Kōhoku Ward" *)
Definition kohoku_ward : pystr :=
  [75; 333; 104; 111; 107; 117; 32; 87; 97; 114; 100]%N.

(** "港北区" *)
Definition kohoku_ku : pystr := [28207; 21271; 21306]%N.

Definition ward_inside : row :=
  mkRow (LTuple (lit "relation") 101)
        (Polygon (mkPolygon (square 1 1 4) []))
        (Some (VStr kohoku_ku)) (Some (VStr kohoku_ward)).

(** Overlaps the extent of the city, its centre outside. *)
Definition ward_outside : row :=
  mkRow (LTuple (lit "relation") 102)
        (Polygon (mkPolygon (square 8 8 6) []))
        (Some (VStr (lit "Minami Ward"))) None.

(** A ward on the water: its centre is off the land. *)
Definition ward_at_sea : row :=
  mkRow (LTuple (lit "relation") 103)
        (Polygon (mkPolygon (square 6 6 3) []))
        (Some (VStr (lit "---"))) (Some VNaN).

Definition admin_centre : row :=
  mkRow (LTuple (lit "node") 7) (Point (Some (5, 5)))
        (Some (VStr (lit "City Hall"))) None.

Definition land : row :=
  mkRow (LTuple (lit "way") 9) (Polygon (mkPolygon (square 0 0 6) [])) None None.

Definition osm_id : pystr := lit "R2689482".

(** The data service: one city, four candidates, a land mask or none. *)
Definition service (candidates : list row) (land_features : option (list row))
    : Acquisition := {|
  geocode_to_gdf := fun i => if PyStr.eqb i osm_id then Some city else None;
  features_from_polygon := fun _ t =>
    match t with
    | admin_level_8 => Some candidates
    | land_tags => land_features
    end
|}.

Definition candidates : list row :=
  [ward_inside; admin_centre; ward_outside; ward_at_sea].





End Demo.

(** ** Predicates of the statements *)

(** A geometry that line 32 keeps. *)
Definition is_region (g : geom) : bool :=
  match g with
  | Polygon _ | MultiPolygon _ => true
  | _ => false
  end.

(** The rows that pass the [is_empty] test of line 114. *)
Definition survivors (wards_gdf : list row) : list row :=
  filter (fun r => negb (is_empty (geometry r))) wards_gdf.

(** The path commands [M] and [Z]. *)
Definition cmd_M : codepoint := 77%N.
Definition cmd_Z : codepoint := 90%N.

(** One closed subpath: a string that opens with a move command, ends with
    the close command and holds no other move or close. *)
Definition closed_subpath (s : pystr) : Prop :=
  (exists body, s = lit "M " ++ body ++ lit " Z")
  /\ count cmd_M s = 1%nat /\ count cmd_Z s = 1%nat.




(** ** Entry point (lines 149 to 160) *)

(** [str.upper] beyond ASCII: one character may become several. *)
Class CaseOps : Type := {
  upper_wide : codepoint -> pystr
}.

Section Main.
Context {geo : GeometryOps} {text : TextOps} {case : CaseOps}.

Definition upper_char (c : codepoint) : pystr :=
  if (c <? 128)%N then [if is_lower c then (c - 32)%N else c]
  else upper_wide c.

(** [s.upper()] *)
Definition upper (s : pystr) : pystr := flat_map upper_char s.

(** [s.startswith(prefix)] *)
Definition startswith (s prefix : pystr) : bool :=
  PyStr.eqb (firstn (length prefix) s) prefix.

(** Lines 156 to 158. *)
Definition normalize_osm_id (arg : pystr) : pystr :=
  let osm_id := upper arg in
  if startswith osm_id (lit "R") then osm_id else lit "R" ++ osm_id.

(** The script on its argument vector [sys.argv]. *)
Definition main (svc : Acquisition) (argv : list pystr) : outcome :=
  match argv with
  | _ :: arg :: _ => generate_svg svc (normalize_osm_id arg)
  | _ => Exit 1
  end.

End Main.

(** ** Further predicates of the statements *)

Definition cmd_L : codepoint := 76%N.

(** The rings that the serializer draws for a polygon: none when it is
    empty. *)
Definition polygon_rings (p : polygon) : list coords :=
  if polygon_is_empty p then [] else exterior p :: interiors p.

(** The rings that the serializer draws for a geometry. *)
Definition drawn_rings (g : geom) : list coords :=
  match g with
  | Polygon p => polygon_rings p
  | MultiPolygon ps => flat_map polygon_rings ps
  | _ => []
  end.

(** The alphabet of a path string: the three commands, the space, digits,
    the point, the minus sign and the letters of [inf] and [nan]. *)
Definition path_char (c : codepoint) : bool :=
  is_digit c ||
  existsb (N.eqb c) [32; 45; 46; 76; 77; 90; 97; 102; 105; 110]%N.

(** Stand-in for [str.upper] beyond ASCII, for examples. *)
Module DemoCase.

#[export] Instance demo_case : CaseOps := {
  upper_wide := fun c => if (c =? 333)%N then [332%N] else [c]
}.

End DemoCase.

(** * Properties *)

(** ** Worked examples *)

Module DemoRun.
Import Demo.

Example format_2f_half : format_2f (Fin (1 # 8)) = lit "0.12".
Proof. reflexivity. Qed.

Example format_2f_neg : format_2f (Fin (- (1234567 # 1000))) = lit "-1234.57".
Proof. reflexivity. Qed.

Example format_2f_small_neg : format_2f (Fin (- (1 # 1000))) = lit "-0.00".
Proof. reflexivity. Qed.

Example format_2f_thousand : format_2f (Fin 1000) = lit "1000.00".
Proof. reflexivity. Qed.

Example canvas_height_square : feq (svg_height square_canvas) (Fin 1000).
Proof. reflexivity. Qed.

Example path_square_with_hole :
  polygon_to_svg_path square_canvas (Polygon (mkPolygon unit_square [small_hole]))
  = lit "M 0.00 1000.00 L 1000.00 1000.00 L 1000.00 0.00 L 0.00 0.00 L 0.00 1000.00 Z M 200.00 800.00 L 200.00 600.00 L 400.00 600.00 L 400.00 800.00 L 200.00 800.00 Z".
Proof. vm_compute. reflexivity. Qed.

Example sanitize_kohoku : sanitize kohoku_ward = lit "Kohoku".
Proof. reflexivity. Qed.

Example sanitize_inner_ward : sanitize (lit "Edward Wards") = lit "EdwardWards".
Proof. reflexivity. Qed.

Example sanitize_hyphen_ward : sanitize (lit "Nishi-WARD 5") = lit "Nishi5".
Proof. reflexivity. Qed.

Example sanitize_underscore_ward : sanitize (lit "ward_1") = lit "ward1".
Proof. reflexivity. Qed.

Example clean_id_fallback :
  clean_id_of (LInt 7) (lit "Ward") = lit "ward_7".
Proof. reflexivity. Qed.

Example clean_id_missing_names :
  row_clean_id (mkRow (LInt 3) empty_polygon (Some VNaN) (Some VNaN)) = lit "nan"
  /\ row_clean_id (mkRow (LInt 3) empty_polygon None None) = lit "Unknown".
Proof. split; reflexivity. Qed.

Example demo_filter :
  spatial_filter Demo.city Demo.candidates = [Demo.ward_inside; Demo.ward_at_sea].
Proof. vm_compute. reflexivity. Qed.

Example demo_clip :
  map (fun r => is_empty (geometry r))
      (final_features (Demo.service Demo.candidates (Some [Demo.land]))
                      Demo.city Demo.candidates)
  = [false; true].
Proof. vm_compute. reflexivity. Qed.

Example demo_document :
  generate_svg (Demo.service Demo.candidates (Some [Demo.land])) Demo.osm_id
  = Written (lit "R2689482.svg")
      (join nl
         [svg_open (mkCanvas (Fin 100) (Fin 100) (Fin 500) (Fin 500) (Fin 1000) (Fin 1000));
          style_block;
          wards_open;
          lit "    <path id=" ++ dq ++ lit "Kohoku" ++ dq ++ lit " class=" ++ dq ++
          lit "ward" ++ dq ++ lit " d=" ++ dq ++
          lit "M 0.00 1000.00 L 1000.00 1000.00 L 1000.00 0.00 L 0.00 0.00 L 0.00 1000.00 Z" ++
          dq ++ lit " />";
          group_close;
          labels_open;
          lit "    <text x=" ++ dq ++ lit "500.00" ++ dq ++ lit " y=" ++ dq ++
          lit "500.00" ++ dq ++ lit " class=" ++ dq ++ lit "label" ++ dq ++ lit ">" ++
          Demo.kohoku_ku ++ lit "</text>";
          group_close;
          svg_close]).
Proof. vm_compute. reflexivity. Qed.

End DemoRun.

(** ** Lists and strings *)

Section ListFacts.
Variables A B : Type.

Lemma fold_left_snoc (f : A -> B) (l : list A) (acc : list B) :
  fold_left (fun acc x => acc ++ [f x]) l acc = acc ++ map f l.
Proof.
  revert acc. induction l as [|x l IH]; intros acc; simpl.
  - now rewrite app_nil_r.
  - rewrite IH, <- app_assoc. reflexivity.
Qed.

Lemma filter_idem (p : A -> bool) (l : list A) :
  filter p (filter p l) = filter p l.
Proof.
  induction l as [|x l IH]; simpl; [reflexivity|].
  destruct (p x) eqn:E; simpl; rewrite ?E, IH; reflexivity.
Qed.

Lemma filter_filter (p q : A -> bool) (l : list A) :
  filter p (filter q l) = filter (fun x => q x && p x) l.
Proof.
  induction l as [|x l IH]; simpl; [reflexivity|].
  destruct (q x); simpl; [destruct (p x)|]; rewrite IH; reflexivity.
Qed.

End ListFacts.

Lemma pystr_eqb_refl (s : pystr) : PyStr.eqb s s = true.
Proof.
  unfold PyStr.eqb. rewrite Nat.eqb_refl. simpl.
  induction s as [|c s IH]; simpl; [reflexivity|].
  now rewrite N.eqb_refl.
Qed.

Lemma pystr_eqb_eq (a b : pystr) : PyStr.eqb a b = true <-> a = b.
Proof.
  split; [|intros ->; apply pystr_eqb_refl].
  unfold PyStr.eqb. revert b.
  induction a as [|c a IH]; intros [|d b]; simpl; try discriminate; auto.
  intros H. apply andb_prop in H as [Hl H]. apply andb_prop in H as [Hc H].
  apply N.eqb_eq in Hc. simpl in Hc. subst d. f_equal.
  apply IH. now rewrite Hl, H.
Qed.

(** ** Spatial filter *)

Section FilterFacts.
Context {geo : GeometryOps}.

Lemma isin_is_region (g : geom) :
  isin (geom_type g) [lit "Polygon"; lit "MultiPolygon"] = is_region g.
Proof. destruct g; reflexivity. Qed.

Lemma is_region_geom_type (g : geom) :
  is_region g = true <->
  geom_type g = lit "Polygon" \/ geom_type g = lit "MultiPolygon".
Proof.
  destruct g; simpl; split; intros H; auto; try discriminate;
    destruct H as [H|H]; vm_compute in H; discriminate.
Qed.

Lemma type_filter_spec (wards : list row) :
  type_filter wards = filter (fun r => is_region (geometry r)) wards.
Proof.
  unfold type_filter. apply filter_ext. intros r. apply isin_is_region.
Qed.

Lemma spatial_filter_once (city_geom : geom) (wards : list row) :
  spatial_filter city_geom wards = point_filter city_geom (type_filter wards).
Proof. unfold spatial_filter, point_filter. apply filter_idem. Qed.

(** C4: the spatial filter keeps a candidate if and only if its type is
    Polygon or MultiPolygon and its representative point is [within] the
    parent boundary; the kept candidates stay in their order, and every other
    geometry type is discarded. *)
Theorem spatial_filter_keeps_iff (city_geom : geom) (wards : list row) :
  spatial_filter city_geom wards
  = filter (fun r => is_region (geometry r) &&
                     within (representative_point (geometry r)) city_geom) wards
  /\ forall r : row,
       In r (spatial_filter city_geom wards) <->
       In r wards /\
       (geom_type (geometry r) = lit "Polygon" \/
        geom_type (geometry r) = lit "MultiPolygon") /\
       within (representative_point (geometry r)) city_geom = true.
Proof.
  assert (E : spatial_filter city_geom wards
              = filter (fun r => is_region (geometry r) &&
                     within (representative_point (geometry r)) city_geom) wards).
  { rewrite spatial_filter_once, type_filter_spec.
    unfold point_filter. apply filter_filter. }
  split; [exact E|].
  intros r. rewrite E, filter_In, andb_true_iff, is_region_geom_type.
  tauto.
Qed.

(** C10: the representative-point filter is idempotent: applied to a
    collection it has already filtered it returns that collection unchanged;
    so the second application in [generate_svg] removes nothing, and the
    whole filter stage is idempotent too. *)
Theorem point_filter_idempotent (city_geom : geom) (wards : list row) :
  point_filter city_geom (point_filter city_geom wards)
  = point_filter city_geom wards
  /\ spatial_filter city_geom wards
     = point_filter city_geom (type_filter wards)
  /\ spatial_filter city_geom (spatial_filter city_geom wards)
     = spatial_filter city_geom wards.
Proof.
  split; [apply filter_idem|]. split; [apply spatial_filter_once|].
  rewrite !spatial_filter_once, !type_filter_spec. unfold point_filter.
  rewrite !filter_filter. apply filter_ext. intros r.
  destruct (is_region (geometry r)),
    (within (representative_point (geometry r)) city_geom); reflexivity.
Qed.

End FilterFacts.

(** ** Land-mask stage *)

Section LandFacts.
Context {geo : GeometryOps} {text : TextOps}.

Lemma intersection_all_Some (gs : list geom) (land_geom : geom) (gs' : list geom) :
  intersection_all gs land_geom = Some gs' <->
  Forall2 (fun g g' => intersection g land_geom = Some g') gs gs'.
Proof.
  revert gs'. induction gs as [|g gs IH]; intros gs'; simpl.
  - split; intros H; [injection H as <-; constructor|inversion H; reflexivity].
  - destruct (intersection g land_geom) as [g'|] eqn:Eg.
    + destruct (intersection_all gs land_geom) as [rest|] eqn:Er.
      * split; intros H.
        -- injection H as <-. constructor; [exact Eg|]. now apply IH.
        -- inversion H as [|? y ? l' Hy Hl]; subst.
           apply IH in Hl. congruence.
      * split; intros H; [discriminate|].
        inversion H as [|? y ? l' Hy Hl]; subst.
        apply IH in Hl. discriminate.
    + split; intros H; [discriminate|].
      inversion H; subst; congruence.
Qed.

Lemma intersection_all_None (gs : list geom) (land_geom : geom) :
  intersection_all gs land_geom = None <->
  exists g, In g gs /\ intersection g land_geom = None.
Proof.
  induction gs as [|g gs IH]; simpl.
  - split; [discriminate|intros (g & [] & _)].
  - destruct (intersection g land_geom) as [g'|] eqn:Eg.
    + destruct (intersection_all gs land_geom) as [rest|].
      * split; [discriminate|].
        intros (h & [<-|Hin] & Hh); [congruence|].
        assert (X : Some rest = None) by (apply IH; eauto).
        discriminate.
      * split; [|reflexivity]. intros _.
        destruct IH as [IH _]. destruct (IH eq_refl) as (h & Hin & Hh).
        exists h; auto.
    + split; [|reflexivity]. intros _. exists g; auto.
Qed.

Lemma assign_geometry_Forall2 (wards : list row) (gs : list geom) (land_geom : geom) :
  Forall2 (fun g g' => intersection g land_geom = Some g') (map geometry wards) gs ->
  Forall2 (fun r r' => intersection (geometry r) land_geom = Some (geometry r') /\
                       r' = set_geometry r (geometry r'))
          wards (assign_geometry wards gs).
Proof.
  revert gs. induction wards as [|r wards IH]; intros gs H; simpl in H.
  - inversion H; subst. constructor.
  - inversion H as [|? g' ? gs' Hg Hrest]; subst.
    unfold assign_geometry; simpl. constructor; [now split|].
    now apply IH.
Qed.

Lemma try_clip_None (svc : Acquisition) (city_geom : geom) (wards : list row) :
  try_clip svc city_geom wards = None <->
  land_mask svc city_geom = None \/
  exists land_geom r,
    land_mask svc city_geom = Some land_geom /\ In r wards /\
    intersection (geometry r) land_geom = None.
Proof.
  unfold try_clip. destruct (land_mask svc city_geom) as [land_geom|].
  - destruct (intersection_all (map geometry wards) land_geom) as [gs|] eqn:E.
    + split; [discriminate|]. intros [H|(l & r & Hl & Hin & Hr)]; [discriminate|].
      injection Hl as <-.
      assert (N : intersection_all (map geometry wards) land_geom = None).
      { apply intersection_all_None. exists (geometry r). split; [|exact Hr].
        now apply in_map. }
      congruence.
    + split; [|reflexivity]. intros _. right.
      apply intersection_all_None in E as (g & Hin & Hg).
      apply in_map_iff in Hin as (r & <- & Hin).
      exists land_geom, r. auto.
  - split; auto.
Qed.

Lemma generate_svg_written (svc : Acquisition) (osm_id : pystr)
    (city_geom : geom) (candidates : list row) :
  geocode_to_gdf svc osm_id = Some city_geom ->
  features_from_polygon svc city_geom admin_level_8 = Some candidates ->
  generate_svg svc osm_id
  = Written (osm_id ++ lit ".svg")
            (join nl (svg_document (final_features svc city_geom candidates))).
Proof. intros Hc Hw. unfold generate_svg. now rewrite Hc, Hw. Qed.

(** C6: when the land-mask stage fails (the land features cannot be fetched
    or united, or an intersection raises), every feature goes on unmodified
    and the run still writes its document, the one of the unclipped frame;
    when the stage succeeds, each geometry is replaced by its intersection
    with the land mask and nothing else of the row changes. *)
Theorem land_stage_fallback (svc : Acquisition) (city_geom : geom) :
  (forall wards : list row,
      try_clip svc city_geom wards = None <->
      land_mask svc city_geom = None \/
      exists land_geom r,
        land_mask svc city_geom = Some land_geom /\ In r wards /\
        intersection (geometry r) land_geom = None)
  /\ (forall wards : list row,
      try_clip svc city_geom wards = None ->
      clip_to_land svc city_geom wards = wards)
  /\ (forall (osm_id : pystr) (candidates : list row),
      geocode_to_gdf svc osm_id = Some city_geom ->
      features_from_polygon svc city_geom admin_level_8 = Some candidates ->
      try_clip svc city_geom (spatial_filter city_geom candidates) = None ->
      generate_svg svc osm_id
      = Written (osm_id ++ lit ".svg")
                (join nl (svg_document (spatial_filter city_geom candidates))))
  /\ (forall (wards : list row) (land_geom : geom),
      land_mask svc city_geom = Some land_geom ->
      (forall r, In r wards -> intersection (geometry r) land_geom <> None) ->
      Forall2 (fun r r' =>
                 intersection (geometry r) land_geom = Some (geometry r') /\
                 r' = set_geometry r (geometry r'))
              wards (clip_to_land svc city_geom wards)).
Proof.
  split; [intros wards; apply try_clip_None|].
  split; [intros wards H; unfold clip_to_land; now rewrite H|].
  split.
  - intros osm_id candidates Hc Hw Hfail.
    rewrite (generate_svg_written _ _ Hc Hw).
    unfold final_features, clip_to_land. now rewrite Hfail.
  - intros wards land_geom Hland Hok.
    unfold clip_to_land, try_clip. rewrite Hland.
    destruct (intersection_all (map geometry wards) land_geom) as [gs|] eqn:E.
    + apply assign_geometry_Forall2. now apply intersection_all_Some.
    + apply intersection_all_None in E as (g & Hin & Hg).
      apply in_map_iff in Hin as (r & <- & Hin).
      now elim (Hok r Hin).
Qed.

End LandFacts.

(** ** Document assembly *)

Section AssemblyFacts.
Context {geo : GeometryOps} {text : TextOps}.

Lemma is_empty_map_coords (f : point -> point) :
  forall g : geom, is_empty (map_coords f g) = is_empty g.
Proof.
  fix IH 1. intros [c|cs|p|ps|ls|ps|gs]; simpl.
  - now destruct c.
  - now destruct cs.
  - unfold polygon_is_empty; simpl. now destruct (exterior p).
  - now destruct ps.
  - induction ls as [|l ls IHl]; simpl; [reflexivity|].
    rewrite IHl. now destruct l.
  - induction ps as [|p ps IHp]; simpl; [reflexivity|].
    rewrite IHp. unfold polygon_is_empty; simpl. now destruct (exterior p).
  - induction gs as [|g gs IHg]; simpl; [reflexivity|].
    now rewrite IH, IHg.
Qed.

Lemma survivors_to_crs (wards : list row) :
  survivors (to_crs wards) = to_crs (survivors wards).
Proof.
  unfold survivors, to_crs.
  induction wards as [|r wards IH]; simpl; [reflexivity|].
  rewrite is_empty_map_coords.
  destruct (is_empty (geometry r)); simpl; now rewrite IH.
Qed.

Lemma loop_fold (cv : canvas) (wards : list row) (shapes labels : list pystr) :
  fold_left (loop_step cv) wards (shapes, labels)
  = (shapes ++ map (shape_element cv) (survivors wards),
     labels ++ map (label_element cv) (survivors wards)).
Proof.
  revert shapes labels.
  induction wards as [|r wards IH]; intros shapes labels; simpl.
  - now rewrite !app_nil_r.
  - unfold survivors; simpl.
    destruct (is_empty (geometry r)); simpl.
    + apply IH.
    + rewrite IH. unfold survivors. now rewrite <- !app_assoc.
Qed.

(** C7: a feature whose geometry is empty after clipping gives no shape
    element and no label element, and the assembly goes on; the features with
    a non-empty geometry give their shape elements in the order of the frame,
    inside the first group, and their label elements in the same order, inside
    the second group, after all the shapes. *)
Theorem document_assembly (clipped : list row) :
  let cv := canvas_of_frame clipped in
  svg_document clipped
  = [svg_open cv; style_block; wards_open]
    ++ map (shape_element cv) (to_crs (survivors clipped))
    ++ [group_close; labels_open]
    ++ map (label_element cv) (to_crs (survivors clipped))
    ++ [group_close; svg_close].
Proof.
  intros cv. unfold svg_document.
  fold (canvas_of_frame clipped). fold cv.
  rewrite loop_fold, survivors_to_crs.
  rewrite <- !app_assoc. reflexivity.
Qed.

End AssemblyFacts.

(** ** Coordinate normalizer *)

Section NormalizerFacts.















End NormalizerFacts.

(** ** Path serializer *)

Section SerializerFacts.
Variable cv : canvas.

Lemma count_app (c : codepoint) (a b : pystr) :
  count c (a ++ b) = (count c a + count c b)%nat.
Proof. unfold count. now rewrite filter_app, length_app. Qed.

Lemma count_zero (c : codepoint) (s : pystr) :
  Forall (fun d => d <> c) s -> count c s = 0%nat.
Proof.
  unfold count. induction 1 as [|d s Hd _ IH]; simpl; [reflexivity|].
  destruct (N.eqb_spec c d); [congruence|exact IH].
Qed.

Lemma join_cons2 (sep a b : pystr) (l : list pystr) :
  join sep (a :: b :: l) = a ++ sep ++ join sep (b :: l).
Proof. reflexivity. Qed.

Lemma join_snoc (sep z : pystr) (l : list pystr) :
  l <> [] -> join sep (l ++ [z]) = join sep l ++ sep ++ z.
Proof.
  induction l as [|a l IH]; intros H; [congruence|].
  destruct l as [|b l]; [reflexivity|].
  change ((a :: b :: l) ++ [z]) with (a :: b :: (l ++ [z])).
  rewrite !join_cons2.
  change (b :: l ++ [z]) with ((b :: l) ++ [z]).
  rewrite IH by discriminate. now rewrite <- !app_assoc.
Qed.

Lemma join_merge (sep a b : pystr) (l : list pystr) :
  join sep ((a ++ sep ++ b) :: l) = a ++ sep ++ join sep (b :: l).
Proof.
  destruct l as [|c l]; [reflexivity|].
  rewrite !join_cons2. now rewrite <- !app_assoc.
Qed.

Lemma count_join_zero (c : codepoint) (sep : pystr) (l : list pystr) :
  count c sep = 0%nat -> Forall (fun s => count c s = 0%nat) l ->
  count c (join sep l) = 0%nat.
Proof.
  intros Hs. induction 1 as [|a l Ha _ IH]; [reflexivity|].
  destruct l as [|b l]; [exact Ha|].
  rewrite join_cons2, !count_app, Ha, Hs, IH. reflexivity.
Qed.

Lemma uint_chars_not_upper (u : Decimal.uint) :
  Forall (fun d => is_upper d = false) (uint_chars u).
Proof. induction u; simpl; constructor; auto. Qed.

Lemma two_digits_not_upper (n : Z) :
  (0 <= n < 100)%Z -> Forall (fun d => is_upper d = false) (two_digits n).
Proof.
  intros H. unfold two_digits, digit_char, is_upper.
  assert (A : forall k : Z, (0 <= k <= 9)%Z ->
             (65 <=? 48 + Z.to_N k)%N && (48 + Z.to_N k <=? 90)%N = false).
  { intros k Hk. apply andb_false_intro1. apply N.leb_gt. lia. }
  apply Forall_cons; [apply A; Z.div_mod_to_equations; lia|].
  apply Forall_cons; [apply A; Z.div_mod_to_equations; lia|]. apply Forall_nil.
Qed.

Lemma format_2f_not_upper (x : fnum) :
  Forall (fun d => is_upper d = false) (format_2f x).
Proof.
  destruct x as [q| | |]; [|repeat constructor..].
  unfold format_2f.
  apply Forall_app. split; [destruct (Qlt_le_dec q 0); repeat constructor|].
  apply Forall_app. split; [apply uint_chars_not_upper|].
  apply Forall_app. split; [repeat constructor|].
  apply two_digits_not_upper. apply Z.mod_pos_bound. lia.
Qed.

Lemma count_upper_format_2f (c : codepoint) (x : fnum) :
  is_upper c = true -> count c (format_2f x) = 0%nat.
Proof.
  intros Hc. apply count_zero.
  eapply Forall_impl; [|apply format_2f_not_upper].
  intros d Hd ->. congruence.
Qed.

Lemma count_path_command (c : codepoint) (i : nat) (p : point) :
  is_upper c = true ->
  count c (path_command cv (i, p))
  = count c (if (i =? 0)%nat then lit "M" else lit "L").
Proof.
  intros Hc. destruct p as [x y]. unfold path_command.
  rewrite !count_app, !count_upper_format_2f by exact Hc.
  assert (S : count c (lit " ") = 0%nat).
  { apply count_zero. repeat constructor. intros <-. discriminate. }
  rewrite S. lia.
Qed.

Lemma enumerate_cons (A : Type) (a : A) (l : list A) :
  enumerate (a :: l)
  = (0%nat, a) :: map (fun ix => (S (fst ix), snd ix)) (enumerate l).
Proof.
  unfold enumerate; simpl. f_equal.
  rewrite <- seq_shift. generalize (seq 0 (length l)) as ns.
  induction l as [|b l IH]; intros [|n ns]; simpl; try reflexivity.
  now rewrite IH.
Qed.

Lemma coords_to_path_join (cs : coords) :
  coords_to_path cv cs
  = join (lit " ") (map (path_command cv) (enumerate cs) ++ [lit "Z"]).
Proof. unfold coords_to_path. now rewrite fold_left_snoc. Qed.

Lemma join_head (sep a : pystr) (l : list pystr) :
  exists rest, join sep (a :: l) = a ++ rest.
Proof.
  destruct l as [|b l].
  - exists []. cbn [join]. now rewrite app_nil_r.
  - exists (sep ++ join sep (b :: l)). apply join_cons2.
Qed.

Lemma count_join_cons (k : codepoint) (sep a : pystr) (l : list pystr) :
  count k sep = 0%nat -> Forall (fun s => count k s = 0%nat) l ->
  count k (join sep (a :: l)) = count k a.
Proof.
  intros Hs Hl. destruct l as [|b l]; [reflexivity|].
  rewrite join_cons2, !count_app, Hs, (@count_join_zero _ _ _ Hs Hl). lia.
Qed.

Lemma count_space_upper (k : codepoint) :
  is_upper k = true -> count k (lit " ") = 0%nat.
Proof.
  intros Hk. apply count_zero. repeat constructor. intros <-. discriminate.
Qed.

Lemma coords_to_path_closed (c : point) (cs : coords) :
  closed_subpath (coords_to_path cv (c :: cs)).
Proof.
  rewrite coords_to_path_join, enumerate_cons, map_cons, map_map.
  set (tail := map _ (enumerate cs)).
  assert (T : forall k, is_upper k = true -> k <> 76%N ->
              Forall (fun s => count k s = 0%nat) tail).
  { intros k Hk Hl. unfold tail. apply Forall_map, Forall_forall.
    intros [i p] _. cbn [fst snd]. rewrite count_path_command by exact Hk.
    apply count_zero. repeat constructor. intros <-. now apply Hl. }
  clearbody tail.
  rewrite join_snoc by discriminate.
  split; [|split].
  - destruct (join_head (lit " ") (path_command cv (0%nat, c)) tail) as [rest ->].
    destruct c as [x y]. cbn [path_command Nat.eqb].
    exists (format_2f (project_x cv x) ++ lit " " ++ format_2f (project_y cv y)
            ++ rest).
    change (lit "M ") with (lit "M" ++ lit " ").
    change (lit " Z") with (lit " " ++ lit "Z").
    now rewrite <- !app_assoc.
  - rewrite !count_app.
    rewrite (@count_join_cons _ _ _ _ (@count_space_upper cmd_M eq_refl)
                              (T cmd_M eq_refl ltac:(discriminate))).
    rewrite count_path_command, (count_space_upper cmd_M) by reflexivity.
    reflexivity.
  - rewrite !count_app.
    rewrite (@count_join_cons _ _ _ _ (@count_space_upper cmd_Z eq_refl)
                              (T cmd_Z eq_refl ltac:(discriminate))).
    rewrite count_path_command, (count_space_upper cmd_Z) by reflexivity.
    reflexivity.
Qed.

Lemma polygon_path_join (p : polygon) :
  polygon_path cv p
  = join (lit " ") (map (coords_to_path cv) (exterior p :: interiors p)).
Proof.
  unfold polygon_path. cbn [map].
  generalize (coords_to_path cv (exterior p)) as d.
  induction (interiors p) as [|r rs IH]; intros d; [reflexivity|].
  cbn [fold_left map]. rewrite IH, join_merge. reflexivity.
Qed.

Lemma polygon_to_svg_path_polygon (p : polygon) :
  polygon_to_svg_path cv (Polygon p) = polygon_to_svg_path_part cv p.
Proof. reflexivity. Qed.

(** C1: an empty geometry gives the empty string; a polygon with one
    interior ring gives the closed subpath of the exterior ring, a space and
    the closed subpath of the hole, each opening with its only move command
    and ending with its only close command, two of each in all; a
    multi-polygon gives the path strings of its parts, in their order, joined
    by single spaces.  Rings have at least one vertex. *)
Theorem path_serializer :
  (forall g : geom, is_empty g = true -> polygon_to_svg_path cv g = [])
  /\ (forall ext hole : coords,
        ext <> [] -> hole <> [] ->
        let d := polygon_to_svg_path cv (Polygon (mkPolygon ext [hole])) in
        d = coords_to_path cv ext ++ lit " " ++ coords_to_path cv hole
        /\ closed_subpath (coords_to_path cv ext)
        /\ closed_subpath (coords_to_path cv hole)
        /\ count cmd_M d = 2%nat /\ count cmd_Z d = 2%nat)
  /\ (forall ps : list polygon,
        is_empty (MultiPolygon ps) = false ->
        polygon_to_svg_path cv (MultiPolygon ps)
        = join (lit " ")
               (map (fun p => polygon_to_svg_path cv (Polygon p)) ps)).
Proof.
  split; [|split].
  - intros g H. unfold polygon_to_svg_path. now rewrite H.
  - intros [|e ext] [|v hole] He Hh; try congruence. clear He Hh.
    pose proof (coords_to_path_closed e ext) as Ce.
    pose proof (coords_to_path_closed v hole) as Ch.
    cbv zeta. split; [reflexivity|]. split; [exact Ce|]. split; [exact Ch|].
    destruct Ce as (_ & Me & Ze). destruct Ch as (_ & Mh & Zh).
    change (polygon_to_svg_path cv (Polygon (mkPolygon (e :: ext) [v :: hole])))
      with (coords_to_path cv (e :: ext) ++ lit " " ++ coords_to_path cv (v :: hole)).
    rewrite !count_app, Me, Ze, Mh, Zh. split; reflexivity.
  - intros ps H. unfold polygon_to_svg_path at 1. rewrite H.
    reflexivity.
Qed.

End SerializerFacts.

(** ** Identifier sanitizer *)

Section SanitizerFacts.
Context {text : TextOps}.

Lemma clean_id_nonempty (i : index_label) (s : pystr) : clean_id_of i s <> [].
Proof.
  unfold clean_id_of. destruct (sanitize s) as [|c rest]; simpl; discriminate.
Qed.

(** C5: when unidecode turns the name "Kōhoku Ward" into "Kohoku Ward", its
    identifier is "Kohoku"; a name whose sanitization is empty gets the
    fallback identifier "ward_" followed by the index of the feature; the
    identifier is never the empty string. *)
Theorem identifier_sanitizer :
  (unidecode Demo.kohoku_ward = lit "Kohoku Ward" ->
   forall i : index_label, clean_id_of i Demo.kohoku_ward = lit "Kohoku")
  /\ (forall (i : index_label) (s : pystr),
        sanitize s = [] -> clean_id_of i s = lit "ward_" ++ str_index i)
  /\ (forall (i : index_label) (s : pystr), clean_id_of i s <> [])
  /\ (forall r : row, row_clean_id r <> []).
Proof.
  split; [|split; [|split]].
  - intros H i. unfold clean_id_of, sanitize. rewrite H. reflexivity.
  - intros i s H. unfold clean_id_of. now rewrite H.
  - apply clean_id_nonempty.
  - intros r. apply clean_id_nonempty.
Qed.

End SanitizerFacts.

(** ** The whole run *)

Section RunFacts.
Context {geo : GeometryOps} {text : TextOps}.




End RunFacts.

(** ** The theorems at work *)

Module Instances.
Import Demo.

Lemma path_serializer_witness :
  polygon_to_svg_path square_canvas (Polygon (mkPolygon unit_square [small_hole]))
  = coords_to_path square_canvas unit_square ++ lit " "
    ++ coords_to_path square_canvas small_hole
  /\ closed_subpath (coords_to_path square_canvas unit_square)
  /\ closed_subpath (coords_to_path square_canvas small_hole)
  /\ count cmd_M (polygon_to_svg_path square_canvas
                    (Polygon (mkPolygon unit_square [small_hole]))) = 2%nat
  /\ count cmd_Z (polygon_to_svg_path square_canvas
                    (Polygon (mkPolygon unit_square [small_hole]))) = 2%nat.
Proof.
  apply (proj1 (proj2 (path_serializer square_canvas)) unit_square small_hole);
    discriminate.
Defined.



Lemma spatial_filter_keeps_iff_witness :
  In ward_inside (spatial_filter city candidates)
  /\ ~ In ward_outside (spatial_filter city candidates)
  /\ ~ In admin_centre (spatial_filter city candidates).
Proof.
  split; [|split].
  - apply (proj2 (spatial_filter_keeps_iff city candidates)).
    split; [simpl; auto|]. split; [left|]; reflexivity.
  - intros H. apply (proj2 (spatial_filter_keeps_iff city candidates)) in H.
    destruct H as (_ & _ & H). vm_compute in H. discriminate.
  - intros H. apply (proj2 (spatial_filter_keeps_iff city candidates)) in H.
    destruct H as (_ & [H|H] & _); vm_compute in H; discriminate.
Defined.

Lemma identifier_sanitizer_witness :
  clean_id_of (LTuple (lit "relation") 101) kohoku_ward = lit "Kohoku"
  /\ clean_id_of (LTuple (lit "relation") 103) (lit "---")
     = lit "ward_('relation', 103)".
Proof.
  split.
  - apply (proj1 identifier_sanitizer). reflexivity.
  - apply (proj1 (proj2 identifier_sanitizer)). reflexivity.
Defined.

Lemma land_stage_fallback_witness :
  clip_to_land (service candidates None) city (spatial_filter city candidates)
  = spatial_filter city candidates
  /\ generate_svg (service candidates None) osm_id
     = Written (osm_id ++ lit ".svg")
               (join nl (svg_document (spatial_filter city candidates)))
  /\ Forall2 (fun r r' =>
                intersection (geometry r) (geometry land) = Some (geometry r') /\
                r' = set_geometry r (geometry r'))
             (spatial_filter city candidates)
             (clip_to_land (service candidates (Some [land])) city
                           (spatial_filter city candidates)).
Proof.
  split; [|split].
  - apply (proj1 (proj2 (land_stage_fallback (service candidates None) city))).
    reflexivity.
  - apply (proj1 (proj2 (proj2 (land_stage_fallback (service candidates None) city))));
      reflexivity.
  - apply (proj2 (proj2 (proj2
             (land_stage_fallback (service candidates (Some [land])) city)))).
    + reflexivity.
    + intros r _. unfold intersection; simpl. unfold demo_intersection.
      destruct (demo_within _ _); discriminate.
Defined.




End Instances.

(** * Further properties of the program *)

(** ** Path serializer: commands, rings and alphabet *)

Section PathShape.
Variable cv : canvas.

(** The number of each command letter in each command word. *)
Ltac count_commands :=
  change (count cmd_M (lit "M")) with 1%nat in *;
  change (count cmd_M (lit "L")) with 0%nat in *;
  change (count cmd_M (lit "Z")) with 0%nat in *;
  change (count cmd_L (lit "M")) with 0%nat in *;
  change (count cmd_L (lit "L")) with 1%nat in *;
  change (count cmd_L (lit "Z")) with 0%nat in *;
  change (count cmd_Z (lit "M")) with 0%nat in *;
  change (count cmd_Z (lit "L")) with 0%nat in *;
  change (count cmd_Z (lit "Z")) with 1%nat in *.

Lemma sum_cons (a : nat) (l : list nat) :
  list_sum (a :: l) = (a + list_sum l)%nat.
Proof. reflexivity. Qed.

Lemma count_join (c : codepoint) (sep : pystr) (l : list pystr) :
  count c sep = 0%nat ->
  count c (join sep l) = list_sum (map (count c) l).
Proof.
  intros Hs. induction l as [|a l IH]; [reflexivity|].
  destruct l as [|b l]; [cbn [join map]; rewrite sum_cons; simpl; lia|].
  rewrite join_cons2, !count_app, Hs, IH. rewrite !map_cons, !sum_cons. lia.
Qed.

Lemma count_commands_tail (c : codepoint) (l : list (nat * point)) :
  is_upper c = true ->
  list_sum (map (fun ix => count c (path_command cv (S (fst ix), snd ix))) l)
  = (length l * count c (lit "L"))%nat.
Proof.
  intros Hc. induction l as [|ix l IH]; [reflexivity|].
  rewrite map_cons, sum_cons, IH.
  rewrite count_path_command by exact Hc.
  cbn [Nat.eqb length]. lia.
Qed.

Lemma length_enumerate (A : Type) (l : list A) : length (enumerate l) = length l.
Proof.
  unfold enumerate. rewrite length_combine, length_seq. apply Nat.min_id.
Qed.

Lemma count_coords_to_path (c : codepoint) (cs : coords) :
  is_upper c = true ->
  count c (coords_to_path cv cs)
  = (match cs with
     | [] => 0
     | _ :: rest => count c (lit "M") + length rest * count c (lit "L")
     end + count c (lit "Z"))%nat.
Proof.
  intros Hc.
  rewrite coords_to_path_join, count_join by (apply count_space_upper; exact Hc).
  rewrite map_app, list_sum_app. cbn [map]. rewrite sum_cons.
  change (list_sum []) with 0%nat. rewrite Nat.add_0_r.
  f_equal. destruct cs as [|p rest]; [reflexivity|].
  rewrite enumerate_cons, !map_cons, sum_cons, !map_map.
  rewrite count_commands_tail, length_enumerate by exact Hc.
  rewrite count_path_command by exact Hc. reflexivity.
Qed.

(** X1: whatever the ring, its subpath holds one command per vertex, a move
    for the first and a line for each of the others, and one close command;
    a ring with no vertex gives the bare close command. *)
Theorem coords_to_path_commands (cs : coords) :
  count cmd_M (coords_to_path cv cs) = Nat.min 1 (length cs)
  /\ count cmd_L (coords_to_path cv cs) = (length cs - 1)%nat
  /\ count cmd_Z (coords_to_path cv cs) = 1%nat
  /\ (cs = [] -> coords_to_path cv cs = lit "Z").
Proof.
  rewrite !count_coords_to_path by reflexivity.
  destruct cs as [|p rest].
  - repeat split; reflexivity.
  - change (count cmd_M (lit "M")) with 1%nat.
    count_commands.
    cbn [length]. repeat split; try lia. discriminate.
Qed.

Lemma count_polygon_part (c : codepoint) (p : polygon) :
  is_upper c = true ->
  count c (polygon_to_svg_path_part cv p)
  = list_sum (map (fun r => count c (coords_to_path cv r)) (polygon_rings p)).
Proof.
  intros Hc. unfold polygon_to_svg_path_part, polygon_rings.
  destruct (polygon_is_empty p); [reflexivity|].
  rewrite polygon_path_join, count_join by (apply count_space_upper; exact Hc).
  now rewrite map_map.
Qed.

Lemma empty_parts_no_rings (ps : list polygon) :
  forallb polygon_is_empty ps = true -> flat_map polygon_rings ps = [].
Proof.
  induction ps as [|p ps IH]; [reflexivity|].
  cbn [forallb flat_map]. intros H. apply andb_prop in H as [Hp Hps].
  unfold polygon_rings at 1. rewrite Hp. now apply IH.
Qed.

Lemma no_rings_empty_parts (ps : list polygon) :
  flat_map polygon_rings ps = [] -> forallb polygon_is_empty ps = true.
Proof.
  induction ps as [|p ps IH]; [reflexivity|].
  cbn [forallb flat_map]. unfold polygon_rings at 1.
  destruct (polygon_is_empty p); [exact IH|discriminate].
Qed.

Lemma count_polygon_to_svg_path (c : codepoint) (g : geom) :
  is_upper c = true ->
  count c (polygon_to_svg_path cv g)
  = list_sum (map (fun r => count c (coords_to_path cv r)) (drawn_rings g)).
Proof.
  intros Hc. destruct g as [o|cs|p|ps|ls|ps|gs];
    try (unfold polygon_to_svg_path; destruct (is_empty _); reflexivity).
  - apply (count_polygon_part c p Hc).
  - unfold polygon_to_svg_path, drawn_rings. cbn [is_empty].
    destruct (forallb polygon_is_empty ps) eqn:E.
    + now rewrite (empty_parts_no_rings ps E).
    + rewrite count_join by (apply count_space_upper; exact Hc).
      rewrite map_map. clear E.
      induction ps as [|p ps IH]; [reflexivity|].
      cbn [flat_map]. rewrite map_cons, sum_cons.
      rewrite map_app, list_sum_app, IH, (count_polygon_part c p Hc).
      reflexivity.
Qed.

Lemma list_sum_const (A : Type) (f : A -> nat) (k : nat) (l : list A) :
  (forall a, f a = k) -> list_sum (map f l) = (length l * k)%nat.
Proof.
  intros H. induction l as [|a l IH]; [reflexivity|].
  rewrite map_cons, sum_cons, IH, H. cbn [length]. lia.
Qed.

Lemma count_close_rings (g : geom) :
  count cmd_Z (polygon_to_svg_path cv g) = length (drawn_rings g).
Proof.
  rewrite count_polygon_to_svg_path by reflexivity.
  rewrite (@list_sum_const _ _ 1%nat); [lia|].
  intros r. rewrite count_coords_to_path by reflexivity.
  count_commands. destruct r; lia.
Qed.

(** X2: the path of a geometry holds one close command for each ring of its
    non-empty polygons, one move command for each of these rings that has a
    vertex, and one move or line command for each of their vertices. *)
Theorem path_commands_per_ring (g : geom) :
  count cmd_Z (polygon_to_svg_path cv g) = length (drawn_rings g)
  /\ count cmd_M (polygon_to_svg_path cv g)
     = length (filter (fun r => negb (coords_is_empty r)) (drawn_rings g))
  /\ (count cmd_M (polygon_to_svg_path cv g)
      + count cmd_L (polygon_to_svg_path cv g))%nat
     = length (concat (drawn_rings g)).
Proof.
  rewrite !count_polygon_to_svg_path by reflexivity.
  generalize (drawn_rings g) as rings. intros rings.
  split; [|split].
  - rewrite (@list_sum_const _ _ 1%nat); [lia|].
    intros r. rewrite count_coords_to_path by reflexivity.
    count_commands. destruct r; lia.
  - induction rings as [|r rings IH]; [reflexivity|].
    rewrite map_cons, sum_cons, IH, count_coords_to_path by reflexivity.
    count_commands. destruct r; cbn [filter coords_is_empty negb length]; lia.
  - induction rings as [|r rings IH]; [reflexivity|].
    rewrite !map_cons, !sum_cons. cbn [concat]. rewrite length_app, <- IH.
    rewrite !count_coords_to_path by reflexivity.
    count_commands.
    destruct r; cbn [length]; lia.
Qed.

(** X4: the path string is empty exactly when the geometry is empty or is
    neither a polygon nor a multi-polygon; a point, a line or a geometry
    collection is drawn as nothing, whatever it contains. *)
Theorem path_empty_iff (g : geom) :
  polygon_to_svg_path cv g = [] <->
  is_empty g = true \/ is_region g = false.
Proof.
  split.
  - intros H.
    assert (Z : length (drawn_rings g) = 0%nat).
    { rewrite <- count_close_rings. now rewrite H. }
    destruct g as [o|cs|p|ps|ls|ps|gs]; auto; left; cbn [is_empty].
    + unfold drawn_rings, polygon_rings in Z.
      destruct (polygon_is_empty p); [reflexivity|discriminate].
    + apply no_rings_empty_parts. apply length_zero_iff_nil. exact Z.
  - intros [H|H].
    + unfold polygon_to_svg_path. now rewrite H.
    + unfold polygon_to_svg_path.
      destruct g; try discriminate; destruct (is_empty _); reflexivity.
Qed.

End PathShape.

Section PathAlphabet.
Variable cv : canvas.

Lemma Forall_join (P : codepoint -> Prop) (sep : pystr) (l : list pystr) :
  Forall P sep -> Forall (Forall P) l -> Forall P (join sep l).
Proof.
  intros Hs. induction 1 as [|a l Ha Hl IH]; [constructor|].
  destruct l as [|b l]; [exact Ha|].
  rewrite join_cons2. apply Forall_app. split; [exact Ha|].
  apply Forall_app. split; [exact Hs|exact IH].
Qed.

Lemma path_char_digit (k : N) : (k <= 9)%N -> path_char (digit_char k) = true.
Proof.
  intros H. unfold path_char, digit_char, is_digit.
  apply orb_true_intro. left. apply andb_true_intro.
  split; apply N.leb_le; lia.
Qed.

Lemma path_char_uint (u : Decimal.uint) :
  Forall (fun c => path_char c = true) (uint_chars u).
Proof. induction u; simpl; constructor; auto. Qed.

Lemma path_char_two_digits (n : Z) :
  (0 <= n < 100)%Z -> Forall (fun c => path_char c = true) (two_digits n).
Proof.
  intros H. unfold two_digits.
  apply Forall_cons; [apply path_char_digit; Z.div_mod_to_equations; lia|].
  apply Forall_cons; [apply path_char_digit; Z.div_mod_to_equations; lia|].
  apply Forall_nil.
Qed.

Lemma path_char_format_2f (x : fnum) :
  Forall (fun c => path_char c = true) (format_2f x).
Proof.
  destruct x as [q| | |]; [|repeat constructor..].
  unfold format_2f.
  apply Forall_app. split; [destruct (Qlt_le_dec q 0); repeat constructor|].
  apply Forall_app. split; [apply path_char_uint|].
  apply Forall_app. split; [repeat constructor|].
  apply path_char_two_digits. apply Z.mod_pos_bound. lia.
Qed.

Lemma path_char_command (ip : nat * point) :
  Forall (fun c => path_char c = true) (path_command cv ip).
Proof.
  destruct ip as [i [x y]]. unfold path_command.
  apply Forall_app. split; [destruct (i =? 0)%nat; repeat constructor|].
  apply Forall_app. split; [repeat constructor|].
  apply Forall_app. split; [apply path_char_format_2f|].
  apply Forall_app. split; [repeat constructor|apply path_char_format_2f].
Qed.

Lemma path_char_coords_to_path (cs : coords) :
  Forall (fun c => path_char c = true) (coords_to_path cv cs).
Proof.
  rewrite coords_to_path_join. apply Forall_join; [repeat constructor|].
  apply Forall_app. split; [|repeat constructor].
  apply Forall_map, Forall_forall. intros ip _. apply path_char_command.
Qed.

Lemma path_char_part (p : polygon) :
  Forall (fun c => path_char c = true) (polygon_to_svg_path_part cv p).
Proof.
  unfold polygon_to_svg_path_part.
  destruct (polygon_is_empty p); [constructor|].
  rewrite polygon_path_join. apply Forall_join; [repeat constructor|].
  apply Forall_map, Forall_forall. intros r _. apply path_char_coords_to_path.
Qed.

(** X3: a path string is written in the alphabet of the commands M, L and Z,
    the space, the digits, the point, the minus sign and the letters of inf
    and nan; it never holds a double quote, an angle bracket or an ampersand,
    so it cannot end the attribute that carries it. *)
Theorem path_alphabet (g : geom) :
  Forall (fun c => path_char c = true) (polygon_to_svg_path cv g)
  /\ count 34%N (polygon_to_svg_path cv g) = 0%nat
  /\ count 60%N (polygon_to_svg_path cv g) = 0%nat
  /\ count 62%N (polygon_to_svg_path cv g) = 0%nat
  /\ count 38%N (polygon_to_svg_path cv g) = 0%nat.
Proof.
  assert (A : Forall (fun c => path_char c = true) (polygon_to_svg_path cv g)).
  { destruct g as [o|cs|p|ps|ls|ps|gs];
      try (unfold polygon_to_svg_path; destruct (is_empty _); constructor).
    - apply path_char_part.
    - unfold polygon_to_svg_path. destruct (is_empty _); [constructor|].
      apply Forall_join; [repeat constructor|].
      apply Forall_map, Forall_forall. intros p _. apply path_char_part. }
  split; [exact A|].
  repeat split; apply count_zero; (eapply Forall_impl; [|exact A]);
    intros c Hc ->; discriminate.
Qed.

End PathAlphabet.

(** ** Canvas: scale and extent *)

Section CanvasFacts.







Context {geo : GeometryOps}.


End CanvasFacts.

(** ** Rows through the filter and the land stage *)

Section RowFacts.
Context {geo : GeometryOps} {text : TextOps}.

Lemma set_geometry_same (r : row) : set_geometry r (geometry r) = r.
Proof. now destruct r. Qed.

Lemma intersection_all_length (gs : list geom) (land_geom : geom) (gs' : list geom) :
  intersection_all gs land_geom = Some gs' -> length gs' = length gs.
Proof.
  intros H. apply intersection_all_Some in H.
  symmetry. exact (Forall2_length H).
Qed.

Lemma assign_geometry_columns (wards : list row) (gs : list geom) :
  length gs = length wards ->
  length (assign_geometry wards gs) = length wards
  /\ map idx (assign_geometry wards gs) = map idx wards
  /\ map name (assign_geometry wards gs) = map name wards
  /\ map name_en (assign_geometry wards gs) = map name_en wards.
Proof.
  unfold assign_geometry. revert gs.
  induction wards as [|r wards IH]; intros [|g gs] H; try discriminate.
  - repeat split.
  - injection H as H. destruct (IH gs H) as (L & I & N & E).
    cbn [combine map length fst snd set_geometry idx name name_en].
    rewrite L, I, N, E. repeat split.
Qed.

(** X7: whether the land stage succeeds or fails, it neither adds, drops nor
    reorders rows, and it leaves the index and the two name columns as they
    were: only the geometry column can change. *)
Theorem land_stage_keeps_rows (svc : Acquisition) (city_geom : geom)
    (wards : list row) :
  length (clip_to_land svc city_geom wards) = length wards
  /\ map idx (clip_to_land svc city_geom wards) = map idx wards
  /\ map name (clip_to_land svc city_geom wards) = map name wards
  /\ map name_en (clip_to_land svc city_geom wards) = map name_en wards.
Proof.
  unfold clip_to_land, try_clip.
  destruct (land_mask svc city_geom) as [land_geom|]; [|repeat split].
  destruct (intersection_all (map geometry wards) land_geom) as [gs|] eqn:E;
    [|repeat split].
  apply assign_geometry_columns.
  rewrite (intersection_all_length _ _ E). apply length_map.
Qed.

Lemma clip_row_origin (svc : Acquisition) (city_geom : geom)
    (wards : list row) (r' : row) :
  In r' (clip_to_land svc city_geom wards) ->
  exists r, In r wards /\ r' = set_geometry r (geometry r').
Proof.
  unfold clip_to_land, try_clip.
  assert (Same : In r' wards ->
                 exists r, In r wards /\ r' = set_geometry r (geometry r')).
  { intros H. exists r'. split; [exact H|]. symmetry. apply set_geometry_same. }
  destruct (land_mask svc city_geom) as [land_geom|]; [|exact Same].
  destruct (intersection_all (map geometry wards) land_geom) as [gs|];
    [|exact Same].
  unfold assign_geometry. intros H.
  apply in_map_iff in H as ([r g] & <- & Hin).
  exists r. split; [exact (in_combine_l _ _ _ _ Hin)|reflexivity].
Qed.

(** X8: every row that reaches the drawing stage comes from a candidate of
    the same index and names whose geometry is a polygon or a multi-polygon
    and whose representative point is within the boundary: no other
    candidate is ever drawn. *)
Theorem drawn_rows_come_from_boundary (svc : Acquisition) (city_geom : geom)
    (candidates : list row) (r' : row) :
  In r' (final_features svc city_geom candidates) ->
  exists r : row,
    In r candidates
    /\ idx r' = idx r /\ name r' = name r /\ name_en r' = name_en r
    /\ is_region (geometry r) = true
    /\ within (representative_point (geometry r)) city_geom = true.
Proof.
  unfold final_features. intros H.
  apply clip_row_origin in H as (r & Hr & E).
  rewrite spatial_filter_once, type_filter_spec in Hr.
  unfold point_filter in Hr.
  apply filter_In in Hr as [Hr Hw]. apply filter_In in Hr as [Hr Ht].
  exists r. rewrite E. repeat split; assumption.
Qed.

End RowFacts.

(** ** Identifier sanitizer: what is removed and what collides *)

Section WardFacts.
Context {text : TextOps}.

Lemma ward_here_length (s : pystr) : ward_here s = true -> (4 <= length s)%nat.
Proof.
  unfold ward_here. intros H. apply andb_prop in H as [H _].
  destruct s as [|a [|b [|c [|d s]]]]; cbn [length]; try lia;
    cbn in H; rewrite ?andb_false_r in H; discriminate.
Qed.

Lemma ward_here_head (c : codepoint) (s : pystr) :
  ward_here (c :: s) = true -> lower_ascii c = 119%N.
Proof.
  unfold ward_here. intros H. apply andb_prop in H as [H _].
  cbn [prefix_ci lit map list_ascii_of_string] in H.
  apply andb_prop in H as [H _]. now apply N.eqb_eq in H.
Qed.

Lemma ward_here_suffix (t : pystr) :
  ward_here (t ++ lit " Ward") = ward_here t.
Proof.
  unfold ward_here.
  destruct t as [|a [|b [|c [|d [|e t]]]]]; try reflexivity.
  - cbn. now destruct (lower_ascii a =? 119)%N.
  - cbn. destruct (lower_ascii a =? 119)%N; [|reflexivity].
    now destruct (lower_ascii b =? 97)%N.
  - cbn. destruct (lower_ascii a =? 119)%N; [|reflexivity].
    destruct (lower_ascii b =? 97)%N; [|reflexivity].
    now destruct (lower_ascii c =? 114)%N.
Qed.

Lemma sub_ward_from_suffix (t : pystr) :
  forall (p : bool) (d : nat),
    (d <= length t)%nat ->
    sub_ward_from p d (t ++ lit " Ward") = sub_ward_from p d t ++ lit " ".
Proof.
  induction t as [|c t IH]; intros p d Hd.
  - assert (d = 0%nat) as -> by (cbn [length] in Hd; lia).
    destruct p; reflexivity.
  - change ((c :: t) ++ lit " Ward") with (c :: (t ++ lit " Ward")).
    cbn [sub_ward_from]. destruct d as [|d].
    + change (c :: (t ++ lit " Ward")) with ((c :: t) ++ lit " Ward").
      rewrite ward_here_suffix.
      destruct (negb p && ward_here (c :: t)) eqn:E.
      * apply andb_prop in E as [_ E]. apply ward_here_length in E.
        cbn [length] in E. apply IH. lia.
      * cbn [app]. f_equal. apply IH. lia.
    + apply IH. cbn [length] in Hd. lia.
Qed.

(** X9: the two substitutions give the same result for a name and for that
    name followed by " Ward"; with a transliteration that works letter by
    letter on such a name, the two names get the same identifier: the
    identifiers of distinct names can collide. *)
Theorem ward_suffix_collision (t : pystr) (i : index_label) :
  sub_non_alnum (sub_ward (t ++ lit " Ward")) = sub_non_alnum (sub_ward t)
  /\ (unidecode (t ++ lit " Ward") = unidecode t ++ lit " Ward" ->
      clean_id_of i (t ++ lit " Ward") = clean_id_of i t).
Proof.
  assert (A : forall u, sub_non_alnum (sub_ward (u ++ lit " Ward"))
                        = sub_non_alnum (sub_ward u)).
  { intros u. unfold sub_ward, sub_non_alnum.
    rewrite sub_ward_from_suffix by lia.
    rewrite filter_app. cbn. apply app_nil_r. }
  split; [apply A|].
  intros H. unfold clean_id_of, sanitize. now rewrite H, A.
Qed.

Lemma sub_ward_from_no_w (s : pystr) :
  Forall (fun c => lower_ascii c <> 119%N) s ->
  forall p : bool, sub_ward_from p 0 s = s.
Proof.
  induction 1 as [|c s Hc _ IH]; intros p; [reflexivity|].
  cbn [sub_ward_from].
  destruct (ward_here (c :: s)) eqn:E.
  - now apply ward_here_head in E.
  - rewrite andb_false_r. f_equal. apply IH.
Qed.

(** X10: a string that holds neither "w" nor "W" is left as it is by the
    removal of the word "ward"; a string of at most three characters is left
    as it is too. *)
Theorem sub_ward_unchanged (s : pystr) :
  (Forall (fun c => lower_ascii c <> 119%N) s -> sub_ward s = s)
  /\ ((length s <= 3)%nat -> sub_ward s = s).
Proof.
  split.
  - intros H. now apply sub_ward_from_no_w.
  - unfold sub_ward. generalize false as p. 
    induction s as [|c s IH]; intros p Hl; [reflexivity|].
    cbn [sub_ward_from].
    destruct (ward_here (c :: s)) eqn:E.
    + apply ward_here_length in E. lia.
    + rewrite andb_false_r. f_equal. apply IH. cbn [length] in Hl. lia.
Qed.

(** X11: an identifier is either the sanitized name, then made of ASCII
    letters and digits only, or, when nothing is left of the name, the
    fallback built from the index. *)
Theorem clean_id_alphabet (i : index_label) (s : pystr) :
  (sanitize s <> [] /\ clean_id_of i s = sanitize s
   /\ Forall (fun c => is_ascii_alnum c = true) (clean_id_of i s))
  \/ (sanitize s = [] /\ clean_id_of i s = lit "ward_" ++ str_index i).
Proof.
  unfold clean_id_of. destruct (sanitize s) as [|c rest] eqn:E.
  - right. split; reflexivity.
  - left. split; [discriminate|]. split; [reflexivity|].
    cbn [truthy]. rewrite <- E. unfold sanitize, sub_non_alnum.
    apply Forall_forall. intros x Hx. now apply filter_In in Hx.
Qed.

(** X12: the identifier is built from the English name when that is a
    non-empty string and from the local name otherwise (column absent,
    missing value or empty string); a row with no name column at all takes
    the name "Unknown", so its identifier is the sanitized "Unknown" and,
    when unidecode leaves that word alone, not the positional fallback. *)
Theorem name_fallback_chain (r : row) :
  (forall s, name_en r = Some (VStr s) -> s <> [] ->
             py_str (row_name_en r) = s)
  /\ (name_en r = None \/ name_en r = Some VNaN \/ name_en r = Some (VStr []) ->
      py_str (row_name_en r) = py_str (row_name_jp r))
  /\ (name r = None -> py_str (row_name_jp r) = lit "Unknown")
  /\ (name r = None -> name_en r = None ->
      unidecode (lit "Unknown") = lit "Unknown" ->
      row_clean_id r = lit "Unknown").
Proof.
  unfold row_clean_id, row_name_en, row_name_jp.
  split; [|split; [|split]].
  - intros s E Hs. rewrite E. destruct s; [congruence|reflexivity].
  - intros [E|[E|E]]; rewrite E; try reflexivity.
    destruct (name r) as [[s|]|]; cbn [py_str];
      try (destruct s; reflexivity); reflexivity.
  - intros E. now rewrite E.
  - intros E1 E2 U. rewrite E1, E2. cbn.
    unfold clean_id_of, sanitize. cbn in U. rewrite U. reflexivity.
Qed.

End WardFacts.

(** ** Entry point *)

Section MainFacts.
Context {geo : GeometryOps} {text : TextOps} {case : CaseOps}.

Lemma startswith_R (s : pystr) :
  startswith s (lit "R") = true -> exists tail, s = lit "R" ++ tail.
Proof.
  unfold startswith. destruct s as [|c s]; [discriminate|].
  intros H. apply pystr_eqb_eq in H. cbn in H. injection H as ->.
  now exists s.
Qed.

Lemma normalize_starts_R (arg : pystr) :
  exists tail, normalize_osm_id arg = lit "R" ++ tail.
Proof.
  unfold normalize_osm_id.
  destruct (startswith (upper arg) (lit "R")) eqn:E.
  - now apply startswith_R.
  - now exists (upper arg).
Qed.

Lemma generate_svg_filename (svc : Acquisition) (osm_id f c : pystr) :
  generate_svg svc osm_id = Written f c -> f = osm_id ++ lit ".svg".
Proof.
  unfold generate_svg.
  destruct (geocode_to_gdf svc osm_id) as [city_geom|]; [|discriminate].
  destruct (features_from_polygon svc city_geom admin_level_8);
    [|discriminate].
  intros H. now injection H as <- _.
Qed.

Lemma upper_digits (s : pystr) :
  Forall (fun c => is_digit c = true) s -> upper s = s.
Proof.
  induction 1 as [|c s Hc _ IH]; [reflexivity|].
  unfold upper in *. cbn [flat_map]. rewrite IH.
  unfold upper_char, is_digit, is_lower in *.
  apply andb_prop in Hc as [H1 H2].
  apply N.leb_le in H1. apply N.leb_le in H2.
  assert (L : (c <? 128)%N = true) by (apply N.ltb_lt; lia).
  assert (M : (97 <=? c)%N = false) by (apply N.leb_gt; lia).
  now rewrite L, M.
Qed.

(** X13: without an argument the script exits with status 1 before any
    request; with one, the identifier handed to [generate_svg] always begins
    with "R", and the name of a written file always begins with "R" and ends
    with ".svg". *)
Theorem main_identifier (svc : Acquisition) (argv : list pystr) :
  ((length argv < 2)%nat -> main svc argv = Exit 1)
  /\ (forall prog arg rest, argv = prog :: arg :: rest ->
        exists tail, main svc argv = generate_svg svc (lit "R" ++ tail))
  /\ (forall f c, main svc argv = Written f c ->
        exists tail, f = lit "R" ++ tail ++ lit ".svg").
Proof.
  split; [|split].
  - destruct argv as [|prog [|arg rest]]; cbn [length]; intros H;
      try reflexivity; lia.
  - intros prog arg rest ->. cbn [main].
    destruct (normalize_starts_R arg) as [tail ->]. now exists tail.
  - destruct argv as [|prog [|arg rest]]; cbn [main]; try discriminate.
    intros f c H. apply generate_svg_filename in H.
    destruct (normalize_starts_R arg) as [tail E]. rewrite E in H.
    exists tail. now rewrite H, <- app_assoc.
Qed.

(** X14: a relation number may be given bare, with a lower-case "r" or with
    an upper-case "R": the three spellings start the same run, on the
    identifier "R" followed by the digits. *)
Theorem main_prefix_insensitive (svc : Acquisition) (prog digits : pystr)
    (rest : list pystr) :
  Forall (fun c => is_digit c = true) digits ->
  main svc (prog :: digits :: rest) = generate_svg svc (lit "R" ++ digits)
  /\ main svc (prog :: (lit "r" ++ digits) :: rest)
     = generate_svg svc (lit "R" ++ digits)
  /\ main svc (prog :: (lit "R" ++ digits) :: rest)
     = generate_svg svc (lit "R" ++ digits).
Proof.
  intros H. pose proof (upper_digits H) as U.
  assert (N0 : normalize_osm_id digits = lit "R" ++ digits).
  { unfold normalize_osm_id. rewrite U.
    destruct (startswith digits (lit "R")) eqn:E; [|reflexivity].
    apply startswith_R in E as [tail ->].
    inversion H as [|c l Hc _]. discriminate. }
  assert (N1 : normalize_osm_id (lit "r" ++ digits) = lit "R" ++ digits).
  { unfold normalize_osm_id. unfold upper in *. cbn. now rewrite U. }
  assert (N2 : normalize_osm_id (lit "R" ++ digits) = lit "R" ++ digits).
  { unfold normalize_osm_id. unfold upper in *. cbn. now rewrite U. }
  cbn [main]. now rewrite N0, N1, N2.
Qed.

End MainFacts.

(** ** Multi-polygons part by part *)

Section PartFacts.
Variable cv : canvas.

Lemma join_app (sep : pystr) (l1 l2 : list pystr) :
  l1 <> [] -> l2 <> [] ->
  join sep (l1 ++ l2) = join sep l1 ++ sep ++ join sep l2.
Proof.
  intros H1 H2. induction l1 as [|a l1 IH]; [congruence|].
  destruct l1 as [|b l1].
  - destruct l2 as [|c l2]; [congruence|]. reflexivity.
  - change ((a :: b :: l1) ++ l2) with (a :: b :: (l1 ++ l2)).
    rewrite !join_cons2.
    change (b :: l1 ++ l2) with ((b :: l1) ++ l2).
    rewrite IH by discriminate. now rewrite <- !app_assoc.
Qed.

Lemma multipolygon_nonempty_parts (ps : list polygon) :
  is_empty (MultiPolygon ps) = false -> ps <> [].
Proof. intros H ->. discriminate. Qed.

(** X15: a multi-polygon with a single part is drawn as that polygon; and
    when two lists of parts each hold a non-empty polygon, the path of the
    multi-polygon of both lists is the path of the first, a space and the
    path of the second. *)
Theorem multipolygon_paths_compose (p : polygon) (ps qs : list polygon) :
  polygon_to_svg_path cv (MultiPolygon [p]) = polygon_to_svg_path cv (Polygon p)
  /\ (is_empty (MultiPolygon ps) = false ->
      is_empty (MultiPolygon qs) = false ->
      polygon_to_svg_path cv (MultiPolygon (ps ++ qs))
      = polygon_to_svg_path cv (MultiPolygon ps) ++ lit " "
        ++ polygon_to_svg_path cv (MultiPolygon qs)).
Proof.
  split.
  - unfold polygon_to_svg_path, polygon_to_svg_path_part. cbn [is_empty forallb map join].
    rewrite andb_true_r. now destruct (polygon_is_empty p).
  - intros Hp Hq.
    pose proof (multipolygon_nonempty_parts Hp) as Np.
    pose proof (multipolygon_nonempty_parts Hq) as Nq.
    unfold polygon_to_svg_path. rewrite Hp, Hq.
    cbn [is_empty] in *. rewrite forallb_app, Hp. cbn [andb].
    rewrite map_app. apply join_app.
    + destruct ps; [congruence|discriminate].
    + destruct qs; [congruence|discriminate].
Qed.

End PartFacts.

(** ** The further properties at work *)

Module MoreInstances.
Import Demo DemoCase.



Lemma drawn_rows_come_from_boundary_witness :
  exists r : row,
    In r candidates
    /\ idx ward_inside = idx r /\ name ward_inside = name r
    /\ name_en ward_inside = name_en r
    /\ is_region (geometry r) = true
    /\ within (representative_point (geometry r)) city = true.
Proof.
  apply (@drawn_rows_come_from_boundary _ (service candidates (Some [land]))
           city candidates ward_inside).
  left. reflexivity.
Defined.

Lemma ward_suffix_collision_witness :
  clean_id_of (LInt 1) (lit "Naka" ++ lit " Ward") = clean_id_of (LInt 1) (lit "Naka").
Proof.
  apply (proj2 (ward_suffix_collision (lit "Naka") (LInt 1))). reflexivity.
Defined.

Lemma sub_ward_unchanged_witness :
  sub_ward (lit "Kohoku") = lit "Kohoku" /\ sub_ward (lit "War") = lit "War".
Proof.
  split.
  - apply (proj1 (sub_ward_unchanged (lit "Kohoku"))).
    repeat constructor; discriminate.
  - apply (proj2 (sub_ward_unchanged (lit "War"))). cbn. lia.
Defined.

Lemma name_fallback_chain_witness :
  py_str (row_name_en ward_inside) = kohoku_ward
  /\ py_str (row_name_en ward_at_sea) = py_str (row_name_jp ward_at_sea)
  /\ row_clean_id land = lit "Unknown".
Proof.
  split; [|split].
  - apply (proj1 (name_fallback_chain ward_inside) kohoku_ward eq_refl).
    discriminate.
  - apply (proj1 (proj2 (name_fallback_chain ward_at_sea))).
    right. left. reflexivity.
  - apply (proj2 (proj2 (proj2 (name_fallback_chain land)))); reflexivity.
Defined.

Lemma main_identifier_witness :
  main (service candidates None) [lit "main.py"] = Exit 1
  /\ exists tail,
       main (service candidates None) [lit "main.py"; lit "r2689482"]
       = generate_svg (service candidates None) (lit "R" ++ tail).
Proof.
  split.
  - apply (proj1 (main_identifier (service candidates None) [lit "main.py"])).
    cbn. lia.
  - apply (proj1 (proj2 (main_identifier (service candidates None)
                           [lit "main.py"; lit "r2689482"]))
             (lit "main.py") (lit "r2689482") []).
    reflexivity.
Defined.

Lemma main_prefix_insensitive_witness :
  main (service candidates None) [lit "main.py"; lit "2689482"]
  = generate_svg (service candidates None) (lit "R" ++ lit "2689482")
  /\ main (service candidates None) [lit "main.py"; lit "r" ++ lit "2689482"]
     = generate_svg (service candidates None) (lit "R" ++ lit "2689482")
  /\ main (service candidates None) [lit "main.py"; lit "R" ++ lit "2689482"]
     = generate_svg (service candidates None) (lit "R" ++ lit "2689482").
Proof.
  apply (@main_prefix_insensitive _ _ _ (service candidates None)
           (lit "main.py") (lit "2689482") []).
  repeat constructor.
Defined.

Lemma multipolygon_paths_compose_witness :
  polygon_to_svg_path square_canvas
    (MultiPolygon ([mkPolygon unit_square []] ++ [mkPolygon small_hole []]))
  = polygon_to_svg_path square_canvas (MultiPolygon [mkPolygon unit_square []])
    ++ lit " "
    ++ polygon_to_svg_path square_canvas (MultiPolygon [mkPolygon small_hole []]).
Proof.
  apply (proj2 (multipolygon_paths_compose square_canvas
                  (mkPolygon unit_square [])
                  [mkPolygon unit_square []] [mkPolygon small_hole []]));
    reflexivity.
Defined.

End MoreInstances.
